(** * DGA detection notebook: encoding, checkpoints, inference and export

    A shallow embedding of the code cells of
    [dga-detection/training-tuning-inference/DGA_Detection.ipynb]:
    the [preprocess] function of the export section, the checkpoint cell,
    the inference loop and the [torch.onnx.export] call.

    Python values are modelled as follows: [int] as [Z], [str] as [string]
    (one [ascii] per character), a cuDF frame as a table of cells with
    labelled columns, a CuPy array and a torch tensor as a shape together
    with its rows, a raised exception as the [Raise] branch of [Res]. *)

From Stdlib Require Import ZArith String Ascii QArith.QArith_base.
From stdpp Require Import base tactics option list list_numbers strings gmap.
From coqutil Require Import Word.LittleEndianList.

(** ** Exceptions *)

Inductive Exception : Type :=
  | KeyError
  | TypeError
  | ValueError
  | FileNotFoundError
  | FileExistsError
  | DeserializationError
  | RuntimeError.

Inductive Res (A : Type) : Type :=
  | Ok (a : A)
  | Raise (e : Exception).
Arguments Ok {A} a.
Arguments Raise {A} e.

Global Instance Res_ret : MRet Res := λ A a, Ok a.
Global Instance Res_bind : MBind Res := λ A B f m,
  match m with
  | Ok a => f a
  | Raise e => Raise e
  end.
Global Instance Res_fmap : FMap Res := λ A B f m,
  match m with
  | Ok a => Ok (f a)
  | Raise e => Raise e
  end.

(** ** Data frames *)

Module Frame.

(** A column label: cuDF frames mix positional labels ([0], [1], ...) with
    named ones (["len"], ["domain"]). *)
Inductive Label : Type :=
  | LPos (i : nat)
  | LName (s : string).

Global Instance Label_eq_dec : EqDecision Label.
Proof. solve_decision. Defined.

Inductive Cell : Type :=
  | CInt (z : Z)
  | CStr (s : string).

(** Row-major table; every row has one cell per label of [columns]. *)
Record DataFrame : Type := mkFrame {
  columns : list Label;
  rows : list (list Cell)
}.

Fixpoint col_index (name : Label) (cols : list Label) : option nat :=
  match cols with
  | [] => None
  | c :: cols' =>
      if decide (c = name) then Some 0
      else S <$> col_index name cols'
  end.

(** [df[lo:hi]] with non-negative bounds: a row slice. *)
Definition iloc_slice (lo hi : nat) (df : DataFrame) : DataFrame :=
  mkFrame (columns df) (take (hi - lo) (drop lo (rows df))).

(** [df[name]] *)
Definition get_col (name : Label) (df : DataFrame) : Res (list Cell) :=
  match col_index name (columns df) with
  | None => Raise KeyError
  | Some i => Ok ((λ r, default (CInt 0%Z) (r !! i)) <$> rows df)
  end.

(** [df.drop(name, axis=1)] *)
Definition drop_col (name : Label) (df : DataFrame) : Res DataFrame :=
  match col_index name (columns df) with
  | None => Raise KeyError
  | Some i => Ok (mkFrame (delete i (columns df)) (delete i <$> rows df))
  end.

Definition cell_int (c : Cell) : Res Z :=
  match c with CInt z => Ok z | CStr _ => Raise TypeError end.

Definition cell_str (c : Cell) : Res string :=
  match c with CStr s => Ok s | CInt _ => Raise TypeError end.

Fixpoint traverse {A B} (f : A → Res B) (l : list A) : Res (list B) :=
  match l with
  | [] => Ok []
  | a :: l' => b ← f a; bs ← traverse f l'; Ok (b :: bs)
  end.

(** [series.values_host] of a numeric column. *)
Definition values_host (col : list Cell) : Res (list Z) :=
  traverse cell_int col.

End Frame.
Import Frame.

(** ** Arrays and tensors *)

(** A two-dimensional array: [shape0] rows of [shape1] entries each. *)
Record ndarray : Type := mkArray {
  shape0 : nat;
  shape1 : nat;
  data : list (list Z)
}.

(** [df.to_cupy()]: one array row per frame row, one array column per
    frame column; a string column has no numeric dtype. *)
Definition to_cupy (df : DataFrame) : Res ndarray :=
  d ← traverse (traverse cell_int) (rows df);
  Ok (mkArray (length (rows df)) (length (columns df)) d).

(** [cp.zeros((n, w))]; a negative dimension is refused. *)
Definition cp_zeros (n : nat) (w : Z) : Res ndarray :=
  if decide (w < 0)%Z then Raise ValueError
  else Ok (mkArray n (Z.to_nat w) (replicate n (replicate (Z.to_nat w) 0%Z))).

(** NumPy broadcasting of one axis: the source extent is the target's, or
    it is 1 and is stretched to the target's extent (extent 0 included). *)
Definition broadcasts (src dst : nat) : bool :=
  bool_decide (src = dst) || bool_decide (src = 1).

Definition stretch {A} (dflt : A) (src dst : nat) (l : list A) : list A :=
  if decide (src = dst) then l else replicate dst (hd dflt l).

(** [a[:r, :c] = v]: the target is the block of the first [min r shape0]
    rows and first [min c shape1] columns of [a]; [v] is broadcast to it,
    and a shape that does not broadcast raises [ValueError]. *)
Definition setitem_block (a : ndarray) (r c : nat) (v : ndarray) : Res ndarray :=
  let tr := r `min` shape0 a in
  let tc := c `min` shape1 a in
  if broadcasts (shape0 v) tr && broadcasts (shape1 v) tc then
    let vrows := stretch [] (shape0 v) tr (data v) in
    let block := zip_with (λ old new, stretch 0%Z (shape1 v) tc new ++ drop tc old)
                          (take tr (data a)) vrows in
    Ok (mkArray (shape0 a) (shape1 a) (block ++ drop tr (data a)))
  else Raise ValueError.

Inductive Device : Type := Cpu | Cuda.

(** A torch tensor of dtype [long]: its device and its contents. *)
Record Tensor (A : Type) : Type := mkTensor {
  device : Device;
  contents : A
}.
Arguments mkTensor {A} device contents.
Arguments device {A} t.
Arguments contents {A} t.

(** [torch.LongTensor(host_array)] is a host tensor. *)
Definition LongTensor (l : list Z) : Tensor (list Z) := mkTensor Cpu l.

(** [torch.as_tensor(cupy_array)]: a CuPy array lives in device memory and
    the tensor shares it. *)
Definition as_tensor (a : ndarray) : Tensor ndarray := mkTensor Cuda a.

(** [tensor.cuda()] *)
Definition cuda {A} (t : Tensor A) : Tensor A := mkTensor Cuda (contents t).

(** [input.astype("long")]: the zeros array is float64 and holds integers
    below 2^53 after the block assignment, so the cast keeps every entry. *)
Definition astype_long (a : ndarray) : ndarray := a.

(** ** The encoder *)

Definition code_point (c : ascii) : Z := Z.of_nat (nat_of_ascii c).

Definition code_points (s : string) : list Z :=
  code_point <$> list_ascii_of_string s.

Definition pad_right (w : nat) (l : list Z) : list Z :=
  l ++ replicate (w - length l) 0%Z.

(** The length of the longest domain. *)
Definition widest (domains : list string) : nat :=
  max_list_with String.length domains.

(** Modelled from the spec: [str2ascii] is imported from the repository's
    [utils] module, whose source is not available. Following the Encoding
    stage and the Encoded-domain entry of the data model, it turns each
    domain string of column [col_name] into the sequence of its ASCII
    codes and records the true length. The result is a frame: positional
    columns [0 .. k-1] hold the codes, zero-padded on the right to the
    longest domain of the frame ([k] characters), column ["len"] holds the
    character count and column [col_name] the domain itself; [preprocess]
    drops these two by name. The function is given no width, so it neither
    truncates a domain nor caps its length. *)
Definition str2ascii (df : DataFrame) (col_name : string) : Res DataFrame :=
  col ← get_col (LName col_name) df;
  domains ← traverse cell_str col;
  let k := widest domains in
  Ok (mkFrame ((LPos <$> seq 0 k) ++ [LName "len"; LName col_name])
        ((λ s, (CInt <$> pad_right k (code_points s))
                 ++ [CInt (Z.of_nat (String.length s)); CStr s]) <$> domains)).

(** [preprocess(df, pad_max_len)], cell 13 of the notebook.
    [cuda_is_available] is the outcome of [torch.cuda.is_available()]. *)
Definition preprocess (cuda_is_available : bool) (df : DataFrame) (pad_max_len : Z)
    : Res (Tensor ndarray * Tensor (list Z)) :=
  df ← str2ascii (iloc_slice 0 32 df) "domain";
  df ← drop_col (LName "domain") df;
  seq_len_arr ← get_col (LName "len") df ≫= values_host;
  df ← drop_col (LName "len") df;
  let seq_len_tensor := LongTensor seq_len_arr in
  seq_cp ← to_cupy df;
  input ← cp_zeros (shape0 seq_cp) pad_max_len;
  input ← setitem_block input (shape0 seq_cp) (shape1 seq_cp) seq_cp;
  let input := astype_long input in
  let seq_tensor := as_tensor input in
  if cuda_is_available
  then Ok (cuda seq_tensor, cuda seq_len_tensor)
  else Ok (seq_tensor, seq_len_tensor).

(** The frame [cudf.read_csv] builds from rows of the input file: a
    ["domain"] column of strings and a ["type"] column of labels. *)
Definition read_frame (records : list (string * Z)) : DataFrame :=
  mkFrame [LName "domain"; LName "type"]
          ((λ r, [CStr r.1; CInt r.2]) <$> records).

(** A tensor on the device [torch.cuda.is_available()] selects. *)
Definition on_device {A} (cuda_is_available : bool) (x : A) : Tensor A :=
  mkTensor (if cuda_is_available then Cuda else Cpu) x.

(** ** The encoder contract as the design states it

    These two definitions follow the words of the design, not the code:
    every domain of the input gets a row of [W] codes, a domain longer
    than [W] is cut to its first [W] characters, and the recorded length
    is capped at [W]. *)

Definition contract_row (W : nat) (s : string) : list Z :=
  pad_right W (take W (code_points s)).

Definition contract_length (W : nat) (s : string) : Z :=
  Z.of_nat (String.length s `min` W).

Definition encoder_contract (gpu : bool) (records : list (string * Z)) (W : Z) : Prop :=
  ∃ seq lens,
    preprocess gpu (read_frame records) W = Ok (seq, lens)
    ∧ data (contents seq) = contract_row (Z.to_nat W) <$> records.*1
    ∧ contents lens = contract_length (Z.to_nat W) <$> records.*1.

(** The second half of the round-trip property as stated: a domain longer
    than [W] is encoded to exactly [W] codes and its length recorded as [W]. *)
Definition truncates_to_width (gpu : bool) (s : string) (W : Z) : Prop :=
  ∃ seq lens row,
    preprocess gpu (read_frame [(s, 0%Z)]) W = Ok (seq, lens)
    ∧ data (contents seq) = [row] ∧ length row = Z.to_nat W
    ∧ contents lens = [W].

(** What a run of [preprocess] yields, the device left aside. *)
Definition outcome (r : Res (Tensor ndarray * Tensor (list Z))) : Res (ndarray * list Z) :=
  (λ p, (contents p.1, contents p.2)) <$> r.

(** ** Export to ONNX *)

Module Onnx.









End Onnx.



(** Cell 14: [input, seq_lengths = preprocess(gdf[0:32], 100)]. *)
Definition sample_cell (cuda_is_available : bool) (gdf : DataFrame)
    : Res (Tensor ndarray * Tensor (list Z)) :=
  preprocess cuda_is_available (iloc_slice 0 32 gdf) 100.



(** ** The detector, its checkpoints and its predictions

    Modelled from the spec: [DGADetector] (module [dga_detector]) and the
    classifier it wraps (module [rnn_classifier]) are imported by the
    notebook and are not among the sources; the notebook only calls them.
    The detector of module [Detector] follows sections 3, 4.2, 4.4, 4.5, 6
    and 7 of the design document. *)

Module Detector.

(** Architecture hyperparameters, as passed to [init_model] in cell 7. *)
Record HyperParams : Type := mkHyper {
  n_layers : Z;
  char_vocab : Z;
  hidden_size : Z;
  n_domain_type : Z
}.

(** A parameter tensor: its shape and its float32 entries as raw bytes,
    four per entry. Predictions are compared bit for bit, so the entries
    are kept as the bytes they are stored in. *)
Record ParamTensor : Type := mkParam {
  dims : list Z;
  raw : list Byte.byte
}.

(** Model parameters (embedding matrix, GRU weight tensors, output linear
    layer weights) with the hyperparameters that fix their shapes. *)
Record Model : Type := mkModel {
  hparams : HyperParams;
  params : list ParamTensor
}.

(** Modelled from the spec: the sequence classifier of section 4.2, whose
    module is missing. [param_shapes] gives the shapes of its parameter
    tensors for given hyperparameters; [classify] is the forward pass on one
    encoded domain (padded codes and true length) followed by the choice of
    the class with the highest score. Both are left open. *)
Class Classifier : Type := mkClassifier {
  param_shapes : HyperParams → list (list Z);
  classify : Model → list Z → Z → Z
}.

(** The state of a [DGADetector] object: the learning rate it was built
    with, if one was given, and the wrapped model once there is one. *)
Record State : Type := mkState {
  lr : option Q;
  model : option Model
}.

(** [DGADetector(lr=..)] and [DGADetector()]. *)
Definition DGADetector (lr : option Q) : State := mkState lr None.

(** *** Files *)

(** A path is the list of its components; [os.path.join] appends. *)
Definition join (dir : list string) (name : string) : list string := dir ++ [name].

Record FileSystem : Type := mkFS {
  dirs : gset (list string);
  files : gmap (list string) (list Byte.byte)
}.

(** The directories above a path, the nearest last. *)
Definition parents (path : list string) : list (list string) :=
  (λ n, take n path) <$> seq 1 (length path - 1).

(** [os.path.exists] *)
Definition path_exists (path : list string) (fs : FileSystem) : bool :=
  bool_decide (path ∈ dirs fs) || bool_decide (is_Some (files fs !! path)).

(** [os.makedirs]: the directory and every missing one above it. *)
Definition makedirs (path : list string) (fs : FileSystem) : Res FileSystem :=
  if path_exists path fs then Raise FileExistsError
  else Ok (mkFS (dirs fs ∪ list_to_set (parents path) ∪ {[path]}) (files fs)).

(** *** The checkpoint format

    Modelled from the spec: the design leaves the binary format to the
    implementer provided that saving and loading round-trip exactly
    (section 6). The format fixed here writes
    every integer as 8 little-endian bytes: the four hyperparameters, the
    number of tensors, then each tensor as its rank, its extents, the
    number of raw bytes and the raw bytes. *)

Definition u64 (z : Z) : list Byte.byte := le_split 8 z.

Definition serialize_tensor (t : ParamTensor) : list Byte.byte :=
  u64 (Z.of_nat (length (dims t))) ++ concat (u64 <$> dims t)
  ++ u64 (Z.of_nat (length (raw t))) ++ raw t.

Definition serialize (m : Model) : list Byte.byte :=
  u64 (n_layers (hparams m)) ++ u64 (char_vocab (hparams m))
  ++ u64 (hidden_size (hparams m)) ++ u64 (n_domain_type (hparams m))
  ++ u64 (Z.of_nat (length (params m))) ++ concat (serialize_tensor <$> params m).

(** A parser consumes a prefix of the bytes or fails. *)
Definition Parser (A : Type) : Type := list Byte.byte → option (A * list Byte.byte).

Definition take_bytes (n : Z) : Parser (list Byte.byte) := λ bs,
  if decide (0 ≤ n ≤ Z.of_nat (length bs))%Z
  then Some (take (Z.to_nat n) bs, drop (Z.to_nat n) bs)
  else None.

Definition take_u64 : Parser Z := λ bs,
  '(b, rest) ← take_bytes 8 bs; Some (le_combine b, rest).

Fixpoint repeat_parse {A} (p : Parser A) (n : nat) : Parser (list A) := λ bs,
  match n with
  | O => Some ([], bs)
  | S n' => '(a, rest) ← p bs; '(l, rest') ← repeat_parse p n' rest; Some (a :: l, rest')
  end.

(** A count followed by that many items. No item is empty, so a count
    beyond the bytes that are left is refused at once. *)
Definition counted {A} (p : Parser A) : Parser (list A) := λ bs,
  '(n, rest) ← take_u64 bs;
  if decide (n ≤ Z.of_nat (length rest))%Z
  then repeat_parse p (Z.to_nat n) rest
  else None.

Definition parse_tensor : Parser ParamTensor := λ bs,
  '(d, rest) ← counted take_u64 bs;
  '(n, rest) ← take_u64 rest;
  '(r, rest) ← take_bytes n rest;
  Some (mkParam d r, rest).

Definition deserialize (bs : list Byte.byte) : option Model :=
  '(l, rest) ← take_u64 bs;
  '(v, rest) ← take_u64 rest;
  '(h, rest) ← take_u64 rest;
  '(c, rest) ← take_u64 rest;
  '(ps, rest) ← counted parse_tensor rest;
  match rest with
  | [] => Some (mkModel (mkHyper l v h c) ps)
  | _ :: _ => None
  end.

(** *** Shapes *)

Definition numel (shape : list Z) : Z := foldr Z.mul 1%Z shape.

(** A tensor holds four bytes for each entry of its shape. *)
Definition tensor_ok (t : ParamTensor) : bool :=
  bool_decide (Z.of_nat (length (raw t)) = 4 * numel (dims t))%Z.

(** The stored tensors are those of a classifier with the stored
    hyperparameters: same number, same shapes, entries complete. *)
Definition compatible `{Classifier} (m : Model) : bool :=
  bool_decide (dims <$> params m = param_shapes (hparams m))
  && forallb tensor_ok (params m).

(** Every integer the format writes fits its 8 bytes. *)
Definition fits_u64 (z : Z) : Prop := (0 ≤ z < 2 ^ 64)%Z.

Definition tensor_representable (t : ParamTensor) : Prop :=
  fits_u64 (Z.of_nat (length (dims t))) ∧ Forall fits_u64 (dims t)
  ∧ fits_u64 (Z.of_nat (length (raw t))).

Definition representable (m : Model) : Prop :=
  fits_u64 (n_layers (hparams m)) ∧ fits_u64 (char_vocab (hparams m))
  ∧ fits_u64 (hidden_size (hparams m)) ∧ fits_u64 (n_domain_type (hparams m))
  ∧ fits_u64 (Z.of_nat (length (params m)))
  ∧ Forall tensor_representable (params m).

(** *** The methods *)

(** Modelled from the spec: [save_checkpoint], section 4.4. It serializes
    the current parameters and hyperparameters to a binary file at the
    path and creates the directories above the path that are absent. A
    detector without a model has nothing to save. *)
Definition save_checkpoint (d : State) (path : list string) (fs : FileSystem)
    : Res FileSystem :=
  match model d with
  | None => Raise RuntimeError
  | Some m =>
      Ok (mkFS (dirs fs ∪ list_to_set (parents path))
               (<[path := serialize m]> (files fs)))
  end.

(** Modelled from the spec: [load_checkpoint], sections 4.4 and 7. A
    missing file is an error; so is a file that does not deserialize, and
    so are stored hyperparameters that the stored parameters do not match.
    Otherwise a model of the stored shape is rebuilt and its parameters
    populated. The detector keeps its state when loading fails. *)
Definition load_checkpoint `{Classifier} (d : State) (path : list string)
    (fs : FileSystem) : Res State :=
  match files fs !! path with
  | None => Raise FileNotFoundError
  | Some bs =>
      match deserialize bs with
      | None => Raise DeserializationError
      | Some m =>
          if compatible m then Ok (mkState (lr d) (Some m))
          else Raise DeserializationError
      end
  end.

(** Modelled from the spec: [predict], section 4.5. It encodes the domains
    as the encoder contract of section 4.1 says, at the default width 100,
    runs the forward pass without gradient tracking and returns the
    predicted class of each input in input order, together with the
    detector state it leaves behind. *)
Definition predict `{Classifier} (d : State) (domains : list string)
    : Res (list Z * State) :=
  match model d with
  | None => Raise RuntimeError
  | Some m =>
      Ok ((λ s, classify m (contract_row 100 s) (contract_length 100 s)) <$> domains,
          d)
  end.

End Detector.

(** ** The checkpoint and inference cells *)

Definition MODELS_DIR : list string := ["models"%string].

(** Cell 10. [now] is the timestamp [now.strftime(..)] formats. *)
Definition save_cell (now : string) (dd : Detector.State) (fs : Detector.FileSystem)
    : Res (list string * Detector.FileSystem) :=
  fs ← (if negb (Detector.path_exists MODELS_DIR fs)
        then Detector.makedirs MODELS_DIR fs
        else Ok fs);
  let model_filename := ("rnn_classifier_" +:+ now +:+ ".bin")%string in
  let model_filepath := Detector.join MODELS_DIR model_filename in
  fs ← Detector.save_checkpoint dd model_filepath fs;
  Ok (model_filepath, fs).

(** [sklearn.metrics.accuracy_score]: the fraction of positions where the
    two label sequences agree, given as the number of such positions and
    the number of positions; sequences of different lengths are refused. *)
Definition accuracy_score (y_true y_pred : list Z) : Res (nat * nat) :=
  if decide (length y_true = length y_pred)
  then Ok (length (filter (λ p, p.1 = p.2) (zip y_true y_pred)), length y_true)
  else Raise ValueError.

(** Cell 11 after the split: the loop over the chunks of the test set,
    each chunk a list of (domain, type) rows, and the accuracy. *)
Fixpoint predict_chunks `{Detector.Classifier} (d : Detector.State)
    (chunks : list (list (string * Z))) : Res (list Z * list Z * Detector.State) :=
  match chunks with
  | [] => Ok ([], [], d)
  | chunk :: chunks' =>
      '(preds, d) ← Detector.predict d chunk.*1;
      '(pred_results, true_results, d) ← predict_chunks d chunks';
      Ok (preds ++ pred_results, chunk.*2 ++ true_results, d)
  end.

Definition inference_cell `{Detector.Classifier} (model_filepath : list string)
    (fs : Detector.FileSystem) (chunks : list (list (string * Z)))
    : Res (nat * nat) :=
  dga_detector ← Detector.load_checkpoint (Detector.DGADetector None) model_filepath fs;
  '(pred_results, true_results, _) ← predict_chunks dga_detector chunks;
  accuracy_score pred_results true_results.

(** ** A small instance

    A classifier and a trained detector on which the statements about the
    detector are exercised. The shapes follow section 4.2: an embedding
    matrix, four tensors for each recurrent layer (input and hidden
    weights and biases of the three gates) and the output layer. The
    decision rule only stands in for a forward pass. *)

Definition sample_shapes (hp : Detector.HyperParams) : list (list Z) :=
  let v := Detector.char_vocab hp in
  let h := Detector.hidden_size hp in
  let c := Detector.n_domain_type hp in
  [[v; h]]
  ++ concat (replicate (Z.to_nat (Detector.n_layers hp))
               [[3 * h; h]; [3 * h; h]; [3 * h]; [3 * h]])%Z
  ++ [[c; h]; [c]].

Definition sample_classifier : Detector.Classifier :=
  Detector.mkClassifier sample_shapes
    (λ m codes len, if decide (len < 8)%Z then 0%Z else 1%Z).

Definition sample_model : Detector.Model :=
  Detector.mkModel (Detector.mkHyper 1 2 1 2)
    [ Detector.mkParam [2; 1]%Z (replicate 8 Byte.x3c);
      Detector.mkParam [3; 1]%Z (replicate 12 Byte.x01);
      Detector.mkParam [3; 1]%Z (replicate 12 Byte.x02);
      Detector.mkParam [3]%Z (replicate 12 Byte.x03);
      Detector.mkParam [3]%Z (replicate 12 Byte.x04);
      Detector.mkParam [2; 1]%Z (replicate 8 Byte.xbf);
      Detector.mkParam [2]%Z (replicate 8 Byte.x00) ].

Definition sample_detector : Detector.State :=
  Detector.mkState (Some (1 # 1000)%Q) (Some sample_model).

Definition empty_fs : Detector.FileSystem := Detector.mkFS ∅ ∅.

Definition sample_path : list string :=
  ["models"; "rnn_classifier_2023-05-26_17_34_54.bin"]%string.

(** ** Configuration and naming cells *)

(** Cell 6. *)
Definition LR : Q := (1 # 1000)%Q.
Definition N_LAYERS : Z := 3.
Definition CHAR_VOCAB : Z := 128.
Definition HIDDEN_SIZE : Z := 100.
Definition N_DOMAIN_TYPE : Z := 2.

(** A domain all of whose characters are ASCII. *)
Definition is_ascii (s : string) : Prop :=
  Forall (λ c, nat_of_ascii c < 128) (list_ascii_of_string s).

(** [datetime.now()]: a calendar date and a time of day. *)
Record datetime : Type := mkDatetime {
  year : Z;
  month : Z;
  day : Z;
  hour : Z;
  minute : Z;
  second : Z;
  microsecond : Z
}.

(** The ranges a [datetime] keeps its fields in. [%Y] prints four digits
    from year 1000 on. *)
Definition valid_datetime (t : datetime) : Prop :=
  (1000 ≤ year t ≤ 9999 ∧ 1 ≤ month t ≤ 12 ∧ 1 ≤ day t ≤ 31
   ∧ 0 ≤ hour t < 24 ∧ 0 ≤ minute t < 60 ∧ 0 ≤ second t < 60
   ∧ 0 ≤ microsecond t < 1000000)%Z.

Definition digit (n : Z) : ascii := ascii_of_nat (Z.to_nat (48 + n mod 10)).

(** A zero-padded decimal field of two digits ([%m], [%d], [%H], [%M],
    [%S]) and of four ([%Y]). *)
Definition two_digits (n : Z) : string :=
  String (digit (n / 10)) (String (digit n) EmptyString).

Definition four_digits (n : Z) : string :=
  String (digit (n / 1000)) (String (digit (n / 100))
    (String (digit (n / 10)) (String (digit n) EmptyString))).

(** [now.strftime("%Y-%m-%d_%H_%M_%S")], cell 10. *)
Definition strftime (now : datetime) : string :=
  (four_digits (year now) +:+ "-" +:+ two_digits (month now) +:+ "-"
   +:+ two_digits (day now) +:+ "_" +:+ two_digits (hour now) +:+ "_"
   +:+ two_digits (minute now) +:+ "_" +:+ two_digits (second now))%string.

(** [model_filepath] of cell 10. *)
Definition model_filepath (now : datetime) : list string :=
  Detector.join MODELS_DIR ("rnn_classifier_" +:+ strftime now +:+ ".bin")%string.

(** The loop of cell 11 over the chunks of the test set, for any [predict]
    method: predictions and labels are collected chunk by chunk and
    concatenated. *)
Fixpoint chunk_loop {S : Type} (predict : S → list string → Res (list Z * S))
    (d : S) (chunks : list (list (string * Z))) : Res (list Z * list Z * S) :=
  match chunks with
  | [] => Ok ([], [], d)
  | chunk :: chunks' =>
      '(preds, d) ← predict d chunk.*1;
      '(pred_results, true_results, d) ← chunk_loop predict d chunks';
      Ok (preds ++ pred_results, chunk.*2 ++ true_results, d)
  end.

(** * Proofs *)

Section traverse_facts.
Context {A B C : Type}.

Lemma traverse_fmap_Ok (f : B → Res C) (g : A → B) (h : A → C) (l : list A) :
  (∀ x, x ∈ l → f (g x) = Ok (h x)) →
  traverse f (g <$> l) = Ok (h <$> l).
Proof.
  induction l as [|a l IH]; intros Hf; [done|].
  cbn. rewrite (Hf a) by left. cbn.
  rewrite IH; [done|]. intros x Hx. apply Hf. by right.
Qed.

End traverse_facts.

Lemma col_index_app_fresh name l1 l2 :
  name ∉ l1 → col_index name (l1 ++ name :: l2) = Some (length l1).
Proof.
  induction l1 as [|c l1 IH]; intros Hn; cbn.
  - by rewrite decide_True.
  - rewrite decide_False by (intros ->; apply Hn; left).
    rewrite IH; [done|]. intros ?. apply Hn. by right.
Qed.

Lemma code_points_length s : length (code_points s) = String.length s.
Proof.
  unfold code_points. rewrite length_fmap.
  induction s as [|c s IH]; cbn; [done|]. by rewrite IH.
Qed.

Lemma pad_right_length w l : length l ≤ w → length (pad_right w l) = w.
Proof. intros H. unfold pad_right. rewrite length_app, length_replicate. lia. Qed.

Lemma pad_right_pad_right w k l :
  length l ≤ k → k ≤ w → pad_right w (pad_right k l) = pad_right w l.
Proof.
  intros H1 H2. unfold pad_right at 1 3.
  rewrite (pad_right_length k l) by done. unfold pad_right.
  rewrite <- (assoc_L (++)), <- replicate_add. do 2 f_equal. lia.
Qed.

Lemma widest_ge domains s : s ∈ domains → String.length s ≤ widest domains.
Proof.
  unfold widest. induction domains as [|d ds IH]; [by intros ?%elem_of_nil|].
  intros [->|H]%elem_of_cons; cbn; [lia|]. specialize (IH H). lia.
Qed.

Lemma widest_le domains w :
  (∀ s, s ∈ domains → String.length s ≤ w) → widest domains ≤ w.
Proof.
  unfold widest. induction domains as [|d ds IH]; intros H; cbn; [lia|].
  apply Nat.max_lub; [apply H; left | apply IH; intros; apply H; by right].
Qed.

(** ** What [preprocess] computes on a frame read from the input file *)

Lemma get_col_domain records :
  get_col (LName "domain") (iloc_slice 0 32 (read_frame records))
  = Ok (CStr <$> take 32 records.*1).
Proof.
  unfold get_col, iloc_slice, read_frame. cbn. f_equal.
  by rewrite drop_0, <- !fmap_take, <- !list_fmap_compose.
Qed.

Lemma str2ascii_read_frame records :
  let ds := take 32 records.*1 in
  str2ascii (iloc_slice 0 32 (read_frame records)) "domain"
  = Ok (mkFrame ((LPos <$> seq 0 (widest ds)) ++ [LName "len"; LName "domain"])
          ((λ s, (CInt <$> pad_right (widest ds) (code_points s))
                   ++ [CInt (Z.of_nat (String.length s)); CStr s]) <$> ds)).
Proof.
  intros ds. unfold str2ascii. rewrite get_col_domain. cbn.
  rewrite (traverse_fmap_Ok cell_str CStr id) by done. cbn.
  by rewrite list_fmap_id.
Qed.

Lemma LName_not_positional name k : LName name ∉ LPos <$> seq 0 k.
Proof. intros (i & [=] & _)%list_elem_of_fmap. Qed.

Lemma padded_cells_length s ds :
  s ∈ ds → length (CInt <$> pad_right (widest ds) (code_points s)) = widest ds.
Proof.
  intros Hs. rewrite length_fmap.
  apply pad_right_length. rewrite code_points_length. by apply widest_ge.
Qed.

Lemma app_two {A} (l : list A) (a b : A) : l ++ [a; b] = (l ++ [a]) ++ [b].
Proof. by rewrite <- (assoc_L (++)). Qed.

Lemma delete_last {A} (l : list A) (x : A) n :
  n = length l → delete n (l ++ [x]) = l.
Proof. intros ->. by rewrite delete_middle, (right_id_L [] (++)). Qed.

Lemma drop_domain_ascii ds :
  drop_col (LName "domain")
    (mkFrame ((LPos <$> seq 0 (widest ds)) ++ [LName "len"; LName "domain"])
       ((λ s, (CInt <$> pad_right (widest ds) (code_points s))
                ++ [CInt (Z.of_nat (String.length s)); CStr s]) <$> ds))
  = Ok (mkFrame ((LPos <$> seq 0 (widest ds)) ++ [LName "len"])
          ((λ s, (CInt <$> pad_right (widest ds) (code_points s))
                   ++ [CInt (Z.of_nat (String.length s))]) <$> ds)).
Proof.
  unfold drop_col. cbn [columns rows].
  rewrite app_two.
  rewrite col_index_app_fresh.
  2:{ intros [H|H]%elem_of_app; [by apply LName_not_positional in H|].
      by apply list_elem_of_singleton in H. }
  rewrite delete_middle, (right_id_L [] (++)). do 2 f_equal.
  rewrite <- list_fmap_compose. apply list_fmap_ext. intros i s Hs. cbn.
  apply list_elem_of_lookup_2 in Hs.
  rewrite app_two.
  apply delete_last.
  rewrite !length_app, padded_cells_length, length_fmap, length_seq by done.
  done.
Qed.

Lemma get_len_ascii ds :
  get_col (LName "len")
    (mkFrame ((LPos <$> seq 0 (widest ds)) ++ [LName "len"])
       ((λ s, (CInt <$> pad_right (widest ds) (code_points s))
                ++ [CInt (Z.of_nat (String.length s))]) <$> ds))
    ≫= values_host
  = Ok ((λ s, Z.of_nat (String.length s)) <$> ds).
Proof.
  unfold get_col. cbn [columns rows].
  rewrite col_index_app_fresh by apply LName_not_positional.
  cbn. unfold values_host. rewrite <- list_fmap_compose.
  apply traverse_fmap_Ok. intros s Hs. cbn.
  rewrite length_fmap, length_seq.
  rewrite lookup_app_r; rewrite padded_cells_length by done; [|done].
  by rewrite Nat.sub_diag.
Qed.

Lemma drop_len_ascii ds :
  drop_col (LName "len")
    (mkFrame ((LPos <$> seq 0 (widest ds)) ++ [LName "len"])
       ((λ s, (CInt <$> pad_right (widest ds) (code_points s))
                ++ [CInt (Z.of_nat (String.length s))]) <$> ds))
  = Ok (mkFrame (LPos <$> seq 0 (widest ds))
          ((λ s, CInt <$> pad_right (widest ds) (code_points s)) <$> ds)).
Proof.
  unfold drop_col. cbn [columns rows].
  rewrite col_index_app_fresh by apply LName_not_positional.
  rewrite delete_middle, (right_id_L [] (++)). do 2 f_equal.
  rewrite <- list_fmap_compose. apply list_fmap_ext. intros i s Hs. cbn.
  apply list_elem_of_lookup_2 in Hs.
  apply delete_last.
  by rewrite padded_cells_length, length_fmap, length_seq.
Qed.

Lemma to_cupy_ascii ds :
  to_cupy (mkFrame (LPos <$> seq 0 (widest ds))
             ((λ s, CInt <$> pad_right (widest ds) (code_points s)) <$> ds))
  = Ok (mkArray (length ds) (widest ds)
          ((λ s, pad_right (widest ds) (code_points s)) <$> ds)).
Proof.
  unfold to_cupy. cbn [columns rows].
  rewrite (traverse_fmap_Ok _ _ (λ s, pad_right (widest ds) (code_points s))).
  - cbn. by rewrite !length_fmap, length_seq.
  - intros s _. rewrite <- (list_fmap_id (pad_right _ _)) at 2.
    by apply traverse_fmap_Ok.
Qed.

Lemma setitem_zeros_fits n w k (d : list (list Z)) :
  length d = n → k ≤ w → Forall (λ row, length row = k) d →
  setitem_block (mkArray n w (replicate n (replicate w 0%Z))) n k (mkArray n k d)
  = Ok (mkArray n w (pad_right w <$> d)).
Proof.
  intros Hn Hk Hrows. unfold setitem_block. cbn [shape0 shape1 data].
  rewrite Nat.min_id, (Nat.min_l k w) by done.
  unfold broadcasts, stretch.
  rewrite (bool_decide_eq_true_2 (n = n)), (bool_decide_eq_true_2 (k = k)) by done.
  rewrite (decide_True (P := n = n)) by done. cbn [orb andb]. do 2 f_equal.
  rewrite take_replicate, Nat.min_id, drop_replicate, Nat.sub_diag.
  cbn [replicate]. rewrite (right_id_L [] (++)).
  rewrite zip_with_replicate_l by lia.
  apply Forall_fmap_ext_1. eapply Forall_impl; [exact Hrows|].
  intros row Hrow. cbn. rewrite decide_True by done.
  unfold pad_right. by rewrite drop_replicate, Hrow.
Qed.

Lemma setitem_zeros_overflow n w k (d : list (list Z)) :
  w < k → k ≠ 1 →
  setitem_block (mkArray n w (replicate n (replicate w 0%Z))) n k (mkArray n k d)
  = Raise ValueError.
Proof.
  intros Hk Hk1. unfold setitem_block. cbn [shape0 shape1 data].
  rewrite Nat.min_id, (Nat.min_r k w) by lia. unfold broadcasts.
  rewrite (bool_decide_eq_false_2 (k = w)) by lia.
  rewrite (bool_decide_eq_false_2 (k = 1)) by done.
  by rewrite andb_false_r.
Qed.

Lemma setitem_zeros_stretch n (d : list (list Z)) :
  length d = n →
  setitem_block (mkArray n 0 (replicate n (replicate 0 0%Z))) n 1 (mkArray n 1 d)
  = Ok (mkArray n 0 (replicate n [])).
Proof.
  intros Hn. unfold setitem_block. cbn [shape0 shape1 data].
  rewrite Nat.min_id. cbn [Nat.min]. unfold broadcasts, stretch.
  rewrite (bool_decide_eq_true_2 (n = n)), (bool_decide_eq_true_2 (1 = 1)) by done.
  rewrite orb_true_r. cbn [orb andb].
  rewrite (decide_True (P := n = n)) by done. do 2 f_equal.
  rewrite take_replicate, Nat.min_id, drop_replicate, Nat.sub_diag.
  cbn [replicate]. rewrite (right_id_L [] (++)).
  rewrite zip_with_replicate_l by lia. cbn.
  subst n. clear. induction d as [|r d IH]; cbn; [done|]. by rewrite IH.
Qed.

(** The tensors [preprocess] returns, or the exception it raises, in terms
    of the first 32 domains of the frame. *)
Theorem preprocess_read_frame gpu records W :
  let ds := take 32 records.*1 in
  let lens := on_device gpu ((λ s, Z.of_nat (String.length s)) <$> ds) in
  preprocess gpu (read_frame records) W =
    if decide (W < 0)%Z then Raise ValueError
    else if decide (widest ds ≤ Z.to_nat W) then
      Ok (mkTensor Cuda
            (mkArray (length ds) (Z.to_nat W)
               ((λ s, pad_right (Z.to_nat W) (code_points s)) <$> ds)), lens)
    else if decide (widest ds = 1) then
      Ok (mkTensor Cuda (mkArray (length ds) 0 (replicate (length ds) [])), lens)
    else Raise ValueError.
Proof.
  intros ds lens. unfold preprocess.
  rewrite str2ascii_read_frame. fold ds. cbn [mbind Res_bind].
  rewrite drop_domain_ascii. cbn [mbind Res_bind].
  rewrite get_len_ascii. cbn [mbind Res_bind].
  rewrite drop_len_ascii. cbn [mbind Res_bind].
  rewrite to_cupy_ascii. cbn [mbind Res_bind shape0 shape1].
  unfold cp_zeros. destruct (decide (W < 0)%Z) as [|HW]; [done|].
  cbn [mbind Res_bind].
  assert (Hrows : Forall (λ row, length row = widest ds)
                    ((λ s, pad_right (widest ds) (code_points s)) <$> ds)).
  { apply Forall_fmap, Forall_forall. intros s Hs. cbn.
    apply pad_right_length. rewrite code_points_length. by apply widest_ge. }
  destruct (decide (widest ds ≤ Z.to_nat W)) as [Hfit|Hover].
  - rewrite setitem_zeros_fits; [|by rewrite length_fmap|done|done].
    cbn [mbind Res_bind]. unfold astype_long, as_tensor, LongTensor, cuda, on_device.
    rewrite <- list_fmap_compose.
    replace (pad_right (Z.to_nat W) ∘ (λ s, pad_right (widest ds) (code_points s)) <$> ds)
      with ((λ s, pad_right (Z.to_nat W) (code_points s)) <$> ds).
    { subst lens. unfold on_device. by destruct gpu. }
    apply list_fmap_ext. intros i s Hs%list_elem_of_lookup_2. cbn.
    fold (pad_right (Z.to_nat W) (pad_right (widest ds) (code_points s))).
    rewrite pad_right_pad_right; [done| |done].
    rewrite code_points_length. by apply widest_ge.
  - destruct (decide (widest ds = 1)) as [H1|H1].
    + assert (Z.to_nat W = 0) as -> by lia. rewrite H1.
      rewrite setitem_zeros_stretch by (by rewrite length_fmap).
      cbn [mbind Res_bind]. subst lens.
      unfold astype_long, as_tensor, LongTensor, cuda, on_device.
      by destruct gpu.
    + rewrite setitem_zeros_overflow by (done || lia). done.
Qed.

(** ** The encoder on the first 32 rows *)

Lemma widest_over ds (w : nat) :
  (∃ s, s ∈ ds ∧ w < String.length s) → w < widest ds.
Proof. intros (s & Hs & Hw). pose proof (widest_ge ds s Hs). lia. Qed.

(** C1 holds for [preprocess] in this amended form. For every frame of
    (domain, label) records and every width [W >= 0]: when each of the
    first 32 domains has at most [W] characters, [preprocess] returns one
    row per domain among the first 32 (later rows are not encoded), in
    order; each row has length [W] and holds the ASCII codes of the
    characters followed by zeros; the length tensor holds the true
    character counts; an empty domain gets length 0 and an all-zero row.
    The result is a function of the arguments alone. Nothing is
    truncated: when one of the first 32 domains is longer than [W >= 1],
    [preprocess] raises [ValueError]. *)
Theorem preprocess_encodes_first_32 gpu records W :
  (0 ≤ W)%Z →
  let ds := take 32 records.*1 in
  let w := Z.to_nat W in
  ((∀ s, s ∈ ds → String.length s ≤ w) →
   ∃ seq lens,
     preprocess gpu (read_frame records) W = Ok (seq, lens)
     ∧ shape0 (contents seq) = length ds
     ∧ shape1 (contents seq) = w
     ∧ data (contents seq)
       = (λ s, code_points s ++ replicate (w - String.length s) 0%Z) <$> ds
     ∧ Forall (λ row, length row = w) (data (contents seq))
     ∧ contents lens = (λ s, Z.of_nat (String.length s)) <$> ds
     ∧ (∀ i, ds !! i = Some ""%string →
             data (contents seq) !! i = Some (replicate w 0%Z)
             ∧ contents lens !! i = Some 0%Z))
  ∧ ((∃ s, s ∈ ds ∧ w < String.length s) → (1 ≤ W)%Z →
     preprocess gpu (read_frame records) W = Raise ValueError).
Proof.
  intros HW ds w. pose proof (preprocess_read_frame gpu records W) as Hp.
  cbv zeta in Hp. fold ds w in Hp.
  rewrite decide_False in Hp by lia. split.
  - intros Hfit. rewrite decide_True in Hp by (by apply widest_le).
    eexists _, _. split; [exact Hp|]. cbn [contents on_device shape0 shape1 data].
    assert (Heq : (λ s, pad_right w (code_points s)) <$> ds
                  = (λ s, code_points s ++ replicate (w - String.length s) 0%Z) <$> ds).
    { apply list_fmap_ext. intros i s _. unfold pad_right.
      by rewrite code_points_length. }
    rewrite Heq. repeat split; try done.
    + apply Forall_fmap, Forall_forall. intros s Hs. cbn.
      rewrite length_app, length_replicate, code_points_length.
      specialize (Hfit s Hs). lia.
    + rewrite list_lookup_fmap, H. cbn. by rewrite Nat.sub_0_r.
    + by rewrite list_lookup_fmap, H.
  - intros Hlong%widest_over H1.
    rewrite decide_False in Hp by lia.
    rewrite decide_False in Hp by lia. exact Hp.
Qed.

(** The example scenario of C1, obtained from the theorem: domains
    "google" and "xkqjzwpqor" with labels 0 and 1, at width 20. *)
Lemma preprocess_encodes_example :
  ∃ seq lens,
    preprocess false (read_frame [("google"%string, 0%Z); ("xkqjzwpqor"%string, 1%Z)]) 20
    = Ok (seq, lens)
    ∧ data (contents seq)
      = [ [103; 111; 111; 103; 108; 101; 0; 0; 0; 0; 0; 0; 0; 0; 0; 0; 0; 0; 0; 0];
          [120; 107; 113; 106; 122; 119; 112; 113; 111; 114; 0; 0; 0; 0; 0; 0; 0; 0; 0; 0]
        ]%Z
    ∧ contents lens = [6; 10]%Z.
Proof.
  destruct (preprocess_encodes_first_32 false
              [("google"%string, 0%Z); ("xkqjzwpqor"%string, 1%Z)] 20)
    as [Hfit _]; [lia|].
  destruct Hfit as (seq & lens & Hp & _ & _ & Hd & _ & Hl & _).
  - intros s Hs. vm_compute in Hs.
    apply elem_of_cons in Hs as [->|Hs]; [vm_compute; lia|].
    apply elem_of_cons in Hs as [->|Hs]; [vm_compute; lia|].
    by apply elem_of_nil in Hs.
  - exists seq, lens. split; [exact Hp|]. split; [exact Hd|exact Hl].
Defined.

(** C1 as stated fails on [preprocess]: of 33 domains only 32 are encoded,
    and a domain longer than the width is not truncated but refused. *)
Lemma encoder_contract_counterexample :
  ¬ encoder_contract false (replicate 33 ("a"%string, 0%Z)) 100
  ∧ ¬ encoder_contract false [("google"%string, 0%Z)] 3.
Proof.
  split.
  - intros (seq & lens & Hp & _ & Hl).
    vm_compute in Hp. injection Hp as <- <-. vm_compute in Hl. discriminate Hl.
  - intros (seq & lens & Hp & _). vm_compute in Hp. discriminate Hp.
Qed.

(** ** Round trip by length *)

(** C2 holds for [preprocess] in this amended form. For every domain of at
    most [W] characters, encoding it and keeping the first [len] codes of
    the padded row, [len] being the recorded length, gives back the ASCII
    codes of the domain in order. A domain longer than [W >= 1] is not cut
    to [W] codes: [preprocess] raises [ValueError] and records no length. *)
Theorem preprocess_round_trip_or_raise gpu s label W :
  ((Z.of_nat (String.length s) ≤ W)%Z →
   ∃ seq lens row len,
     preprocess gpu (read_frame [(s, label)]) W = Ok (seq, lens)
     ∧ data (contents seq) = [row] ∧ contents lens = [len]
     ∧ len = Z.of_nat (String.length s)
     ∧ length row = Z.to_nat W
     ∧ take (Z.to_nat len) row = code_points s)
  ∧ ((1 ≤ W < Z.of_nat (String.length s))%Z →
     preprocess gpu (read_frame [(s, label)]) W = Raise ValueError).
Proof.
  pose proof (preprocess_read_frame gpu [(s, label)] W) as Hp.
  cbv zeta in Hp. cbn [fmap list_fmap fst take length] in Hp.
  unfold widest in Hp. cbn [max_list_with] in Hp.
  rewrite Nat.max_0_r in Hp. split.
  - intros Hfit. rewrite decide_False, decide_True in Hp by lia.
    eexists _, _, _, _. split; [exact Hp|].
    cbn [contents on_device data]. split; [done|]. split; [done|]. split; [done|].
    unfold pad_right. rewrite code_points_length. split.
    + rewrite length_app, length_replicate, code_points_length. lia.
    + rewrite Nat2Z.id, <- (code_points_length s). apply take_app_length.
  - intros [H1 Hlong]. by rewrite !decide_False in Hp by lia.
Qed.

Lemma preprocess_round_trip_example :
  ∃ seq lens row len,
    preprocess false (read_frame [("google"%string, 0%Z)]) 20 = Ok (seq, lens)
    ∧ data (contents seq) = [row] ∧ contents lens = [len]
    ∧ len = 6%Z
    ∧ length row = 20
    ∧ take 6 row = [103; 111; 111; 103; 108; 101]%Z.
Proof.
  destruct (preprocess_round_trip_or_raise false "google" 0%Z 20) as [Hfit _].
  destruct Hfit as (seq & lens & row & len & Hp & Hd & Hl & Hlen & Hrow & Htake);
    [vm_compute; discriminate|].
  exists seq, lens, row, len. split; [exact Hp|]. split; [exact Hd|].
  split; [exact Hl|]. split; [exact Hlen|]. split; [exact Hrow|].
  rewrite Hlen in Htake. exact Htake.
Defined.

(** C2 as stated fails on [preprocess]: "google" at width 3 is not encoded
    to 3 codes with recorded length 3. *)
Lemma truncates_to_width_counterexample :
  ¬ truncates_to_width false "google" 3.
Proof.
  intros (seq & lens & row & Hp & _). vm_compute in Hp. discriminate Hp.
Qed.

(** ** Determinism *)

Lemma preprocess_row gpu records W seq lens i s :
  i < 32 → records.*1 !! i = Some s →
  preprocess gpu (read_frame records) W = Ok (seq, lens) →
  data (contents seq) !! i
  = Some (take (Z.to_nat W) (pad_right (Z.to_nat W) (code_points s)))
  ∧ contents lens !! i = Some (Z.of_nat (String.length s)).
Proof.
  intros Hi Hs. rewrite preprocess_read_frame. cbv zeta.
  assert (Hds : take 32 records.*1 !! i = Some s) by (by rewrite lookup_take_lt).
  pose proof (list_elem_of_lookup_2 _ _ _ Hds) as Hin.
  pose proof (widest_ge _ _ Hin) as Hle.
  destruct (decide (W < 0)%Z); [done|].
  destruct (decide (widest (take 32 records.*1) ≤ Z.to_nat W)) as [Hfit|Hover].
  - intros [= <- <-]. cbn [contents on_device data].
    rewrite !list_lookup_fmap, Hds. cbn. split; [|done]. f_equal.
    rewrite take_ge; [done|].
    rewrite pad_right_length; [done|]. rewrite code_points_length. lia.
  - destruct (decide (widest (take 32 records.*1) = 1)); [|done].
    intros [= <- <-]. cbn [contents on_device data].
    rewrite list_lookup_fmap, Hds. split; [|done].
    assert (Z.to_nat W = 0) as -> by lia. cbn [take].
    apply lookup_replicate_2. by apply lookup_lt_Some in Hds.
Qed.

(** C9. Two runs of [preprocess] on the same frame and width yield the same
    sequences and the same lengths, or the same exception, whatever
    [torch.cuda.is_available()] answers in each; and a domain gets the same
    row and the same recorded length in any two successful runs at the
    same width, whatever the other rows of the two frames are. *)
Theorem preprocess_deterministic :
  (∀ gpu1 gpu2 df W,
     outcome (preprocess gpu1 df W) = outcome (preprocess gpu2 df W))
  ∧ (∀ gpu1 gpu2 records1 records2 W i j s seq1 lens1 seq2 lens2,
       i < 32 → j < 32 →
       records1.*1 !! i = Some s → records2.*1 !! j = Some s →
       preprocess gpu1 (read_frame records1) W = Ok (seq1, lens1) →
       preprocess gpu2 (read_frame records2) W = Ok (seq2, lens2) →
       is_Some (data (contents seq1) !! i)
       ∧ data (contents seq1) !! i = data (contents seq2) !! j
       ∧ contents lens1 !! i = contents lens2 !! j).
Proof.
  split.
  - intros gpu1 gpu2 df W. unfold preprocess, outcome.
    repeat match goal with
           | |- context [mbind _ ?m] =>
               destruct m; cbn [mbind Res_bind fmap Res_fmap]; [|done]
           end.
    by destruct gpu1, gpu2.
  - intros gpu1 gpu2 records1 records2 W i j s seq1 lens1 seq2 lens2
      Hi Hj Hs1 Hs2 Hp1 Hp2.
    destruct (preprocess_row _ _ _ _ _ _ _ Hi Hs1 Hp1) as [-> ->].
    destruct (preprocess_row _ _ _ _ _ _ _ Hj Hs2 Hp2) as [-> ->].
    by eauto.
Qed.

Lemma preprocess_deterministic_example :
  outcome (preprocess true (read_frame [("google"%string, 0%Z)]) 20)
  = outcome (preprocess false (read_frame [("google"%string, 0%Z)]) 20)
  ∧ ∃ seq1 lens1 seq2 lens2,
      preprocess true (read_frame [("google"%string, 0%Z)]) 20 = Ok (seq1, lens1)
      ∧ preprocess false
          (read_frame [("xkqjzwpqor"%string, 1%Z); ("google"%string, 0%Z)]) 20
        = Ok (seq2, lens2)
      ∧ data (contents seq1) !! 0 = data (contents seq2) !! 1
      ∧ contents lens1 !! 0 = contents lens2 !! 1.
Proof.
  destruct preprocess_deterministic as [Hsame Hrow]. split; [apply Hsame|].
  eexists _, _, _, _. split; [by vm_compute|]. split; [by vm_compute|].
  eapply proj2.
  eapply (Hrow true false [("google"%string, 0%Z)]
            [("xkqjzwpqor"%string, 1%Z); ("google"%string, 0%Z)]
            20%Z 0 1 "google"%string);
    [lia | lia | reflexivity | reflexivity | by vm_compute | by vm_compute].
Defined.

(** ** Only the first 32 rows are encoded *)

Lemma iloc_slice_idemp df : iloc_slice 0 32 (iloc_slice 0 32 df) = iloc_slice 0 32 df.
Proof.
  unfold iloc_slice. cbn [columns rows]. f_equal.
  by rewrite !drop_0, take_take, Nat.min_id.
Qed.

(** C10. [preprocess] encodes the first 32 rows only: its outcome is that
    of the frame cut to its first 32 rows; rows after the 32nd change
    nothing; and whenever it returns, the sequence tensor and the length
    tensor both have first dimension [min (number of rows) 32]. It raises
    only [ValueError], when the width is negative or one of the first 32
    domains does not fit in it. *)
Theorem preprocess_keeps_32_rows :
  (∀ gpu df W, preprocess gpu df W = preprocess gpu (iloc_slice 0 32 df) W)
  ∧ (∀ gpu records extra W,
       32 ≤ length records →
       preprocess gpu (read_frame (records ++ extra)) W
       = preprocess gpu (read_frame records) W)
  ∧ (∀ gpu records W,
       match preprocess gpu (read_frame records) W with
       | Ok (seq, lens) =>
           shape0 (contents seq) = length records `min` 32
           ∧ length (data (contents seq)) = length records `min` 32
           ∧ length (contents lens) = length records `min` 32
       | Raise e =>
           e = ValueError
           ∧ ((W < 0)%Z
              ∨ (Z.to_nat W < widest (take 32 records.*1)
                 ∧ widest (take 32 records.*1) ≠ 1))
       end).
Proof.
  split; [|split].
  - intros gpu df W. unfold preprocess. by rewrite iloc_slice_idemp.
  - intros gpu records extra W Hlen. rewrite !preprocess_read_frame. cbv zeta.
    by rewrite fmap_app, take_app_le by (by rewrite length_fmap).
  - intros gpu records W. rewrite preprocess_read_frame. cbv zeta.
    assert (Hn : length (take 32 records.*1) = length records `min` 32).
    { rewrite length_take, length_fmap. lia. }
    destruct (decide (W < 0)%Z); [by auto|].
    destruct (decide (widest (take 32 records.*1) ≤ Z.to_nat W)).
    { cbn [contents on_device shape0 data]. by rewrite !length_fmap. }
    destruct (decide (widest (take 32 records.*1) = 1)).
    { cbn [contents on_device shape0 data].
      by rewrite length_fmap, length_replicate. }
    split; [done|]. right. lia.
Qed.

Lemma preprocess_keeps_32_rows_example :
  preprocess false (read_frame (replicate 32 ("a"%string, 0%Z) ++ [("google"%string, 1%Z)])) 1
  = preprocess false (read_frame (replicate 32 ("a"%string, 0%Z))) 1
  ∧ ∃ seq lens,
      preprocess false (read_frame (replicate 32 ("a"%string, 0%Z))) 1 = Ok (seq, lens)
      ∧ shape0 (contents seq) = 32 ∧ length (contents lens) = 32.
Proof.
  destruct preprocess_keeps_32_rows as (_ & Hextra & Hdim). split.
  - apply Hextra. by rewrite length_replicate.
  - specialize (Hdim false (replicate 32 ("a"%string, 0%Z)) 1%Z).
    destruct (preprocess false (read_frame (replicate 32 ("a"%string, 0%Z))) 1)
      as [[seq lens]|e] eqn:Hp.
    + exists seq, lens. rewrite length_replicate in Hdim.
      destruct Hdim as (H0 & _ & Hl). split; [done|]. split; [exact H0|exact Hl].
    + exfalso. destruct Hdim as (_ & [Hneg|[Hw _]]); [lia|].
      vm_compute in Hw. lia.
Defined.

(** ** The exported graph *)








(** ** The checkpoint format round-trips *)

Section format_facts.
Import Detector.

Lemma u64_length z : length (u64 z) = 8.
Proof. apply length_le_split. Qed.

Lemma take_bytes_app (b rest : list Byte.byte) :
  take_bytes (Z.of_nat (length b)) (b ++ rest) = Some (b, rest).
Proof.
  unfold take_bytes. rewrite decide_True by (rewrite length_app; lia).
  by rewrite Nat2Z.id, take_app_length, drop_app_length.
Qed.

Lemma take_u64_app z rest : fits_u64 z → take_u64 (u64 z ++ rest) = Some (z, rest).
Proof.
  intros Hz. unfold take_u64.
  pose proof (take_bytes_app (u64 z) rest) as Ht.
  rewrite u64_length in Ht. change (Z.of_nat 8) with 8%Z in Ht.
  rewrite Ht. cbn. unfold u64. rewrite le_combine_split.
  do 2 f_equal. apply Z.mod_small. exact Hz.
Qed.

Lemma repeat_parse_app {A} (p : Parser A) (ser : A → list Byte.byte)
    (P : A → Prop) (l : list A) rest :
  (∀ a rest', P a → p (ser a ++ rest') = Some (a, rest')) →
  Forall P l →
  repeat_parse p (length l) (concat (ser <$> l) ++ rest) = Some (l, rest).
Proof.
  intros Hp Hl. induction Hl as [|a l Ha _ IH]; [done|].
  cbn. rewrite <- (assoc_L (++)), (Hp _ _ Ha). cbn. by rewrite IH.
Qed.

Lemma concat_length_ge {A} (ser : A → list Byte.byte) (l : list A) :
  (∀ a, 1 ≤ length (ser a)) → length l ≤ length (concat (ser <$> l)).
Proof.
  intros Hser. induction l as [|a l IH]; cbn; [lia|].
  rewrite length_app. specialize (Hser a). lia.
Qed.

Lemma counted_app {A} (p : Parser A) (ser : A → list Byte.byte)
    (P : A → Prop) (l : list A) rest :
  (∀ a rest', P a → p (ser a ++ rest') = Some (a, rest')) →
  (∀ a, 1 ≤ length (ser a)) →
  fits_u64 (Z.of_nat (length l)) → Forall P l →
  counted p (u64 (Z.of_nat (length l)) ++ concat (ser <$> l) ++ rest)
  = Some (l, rest).
Proof.
  intros Hp Hser Hn Hl. unfold counted. rewrite take_u64_app by done. cbn.
  rewrite decide_True.
  - rewrite Nat2Z.id. by eapply repeat_parse_app.
  - rewrite length_app. pose proof (concat_length_ge ser l Hser). lia.
Qed.

Lemma parse_tensor_app t rest :
  tensor_representable t → parse_tensor (serialize_tensor t ++ rest) = Some (t, rest).
Proof.
  intros (Hrank & Hdims & Hraw). unfold parse_tensor, serialize_tensor.
  rewrite <- !(assoc_L (++)).
  rewrite (counted_app take_u64 u64 fits_u64); try done.
  2:{ intros a rest'. apply take_u64_app. }
  2:{ intros a. rewrite u64_length. lia. }
  cbn. rewrite take_u64_app by done. cbn.
  rewrite take_bytes_app. cbn. by destruct t.
Qed.

Lemma serialize_tensor_length t : 1 ≤ length (serialize_tensor t).
Proof. unfold serialize_tensor. rewrite length_app, u64_length. lia. Qed.

Theorem deserialize_serialize m :
  representable m → deserialize (serialize m) = Some m.
Proof.
  intros (Hl & Hv & Hh & Hc & Hn & Hps). unfold deserialize, serialize.
  rewrite !take_u64_app by done. cbn.
  rewrite take_u64_app by done. cbn.
  rewrite take_u64_app by done. cbn.
  rewrite take_u64_app by done. cbn.
  rewrite <- (right_id_L [] (++) (concat _)).
  rewrite (counted_app parse_tensor serialize_tensor tensor_representable);
    try done.
  - cbn. by destruct m as [[] ?].
  - intros a rest'. apply parse_tensor_app.
  - apply serialize_tensor_length.
Qed.
End format_facts.

(** ** Saving and loading *)

Lemma sample_model_representable : Detector.representable sample_model.
Proof.
  unfold Detector.representable, Detector.fits_u64. cbn.
  repeat split; try lia.
  repeat constructor; cbn; lia.
Qed.

Lemma sample_model_compatible :
  @Detector.compatible sample_classifier sample_model = true.
Proof. by vm_compute. Qed.

Lemma load_after_save `{Detector.Classifier} d d0 m path fs fs' :
  Detector.model d = Some m →
  Detector.representable m → Detector.compatible m = true →
  Detector.save_checkpoint d path fs = Ok fs' →
  Detector.load_checkpoint d0 path fs'
  = Ok (Detector.mkState (Detector.lr d0) (Some m)).
Proof.
  intros Hm Hrep Hcomp. unfold Detector.save_checkpoint. rewrite Hm.
  intros [= <-]. unfold Detector.load_checkpoint. cbn [Detector.files].
  rewrite lookup_insert_eq, deserialize_serialize by done. by rewrite Hcomp.
Qed.

(** C3. For every classifier and every detector that holds a model (one
    whose tensors have the shapes of its hyperparameters and whose sizes
    fit the format), for every path and file system: [save_checkpoint]
    succeeds, [load_checkpoint] of the same path on a fresh detector
    succeeds, the loaded model is the saved one byte for byte, and on
    every list of domains the loaded detector predicts exactly what the
    original predicts. *)
Theorem checkpoint_round_trip `{Detector.Classifier} d m path fs :
  Detector.model d = Some m →
  Detector.representable m → Detector.compatible m = true →
  ∃ fs' d',
    Detector.save_checkpoint d path fs = Ok fs'
    ∧ Detector.load_checkpoint (Detector.DGADetector None) path fs' = Ok d'
    ∧ Detector.model d' = Some m
    ∧ ∀ domains,
        fst <$> Detector.predict d' domains = fst <$> Detector.predict d domains.
Proof.
  intros Hm Hrep Hcomp.
  exists (Detector.mkFS (Detector.dirs fs ∪ list_to_set (Detector.parents path))
            (<[path := Detector.serialize m]> (Detector.files fs))).
  eexists. split; [unfold Detector.save_checkpoint; by rewrite Hm|].
  split.
  - eapply load_after_save; try done.
    unfold Detector.save_checkpoint. by rewrite Hm.
  - split; [done|]. intros domains. unfold Detector.predict.
    cbn [Detector.model]. by rewrite Hm.
Qed.

Lemma checkpoint_round_trip_sample :
  ∃ fs' d',
    Detector.save_checkpoint sample_detector sample_path empty_fs = Ok fs'
    ∧ @Detector.load_checkpoint sample_classifier (Detector.DGADetector None)
        sample_path fs' = Ok d'
    ∧ Detector.model d' = Some sample_model
    ∧ ∀ domains,
        fst <$> @Detector.predict sample_classifier d' domains
        = fst <$> @Detector.predict sample_classifier sample_detector domains.
Proof.
  apply (@checkpoint_round_trip sample_classifier sample_detector sample_model
           sample_path empty_fs).
  - reflexivity.
  - exact sample_model_representable.
  - exact sample_model_compatible.
Defined.

(** ** Predictions *)

Lemma predict_chunks_spec `{Detector.Classifier} d m chunks :
  Detector.model d = Some m →
  predict_chunks d chunks
  = Ok ((λ s, Detector.classify m (contract_row 100 s) (contract_length 100 s))
          <$> (concat chunks).*1,
        (concat chunks).*2, d).
Proof.
  intros Hm. induction chunks as [|chunk chunks IH]; [done|].
  cbn [predict_chunks]. unfold Detector.predict at 1. rewrite Hm.
  cbn [mbind Res_bind]. rewrite IH. cbn [mbind Res_bind concat].
  by rewrite !fmap_app.
Qed.



(** ** Loading *)


Example load_missing_file :
  @Detector.load_checkpoint sample_classifier (Detector.DGADetector None)
    sample_path empty_fs = Raise FileNotFoundError.
Proof. reflexivity. Qed.

Example load_corrupt_file :
  @Detector.load_checkpoint sample_classifier (Detector.DGADetector None)
    sample_path (Detector.mkFS ∅ {[sample_path := [Byte.x00; Byte.x01]]})
  = Raise DeserializationError.
Proof.
  unfold Detector.load_checkpoint. cbn [Detector.files].
  by rewrite lookup_singleton_eq.
Qed.

(** A well-formed file whose stored vocabulary size (3) is not the number
    of rows of the stored embedding matrix (2). *)
Example load_mismatched_hyperparameters :
  @Detector.load_checkpoint sample_classifier (Detector.DGADetector None)
    sample_path
    (Detector.mkFS ∅
       {[sample_path :=
           Detector.serialize
             (Detector.mkModel (Detector.mkHyper 1 3 1 2)
                (Detector.params sample_model))]})
  = Raise DeserializationError.
Proof.
  unfold Detector.load_checkpoint. cbn [Detector.files].
  rewrite lookup_singleton_eq, deserialize_serialize.
  - by vm_compute.
  - destruct sample_model_representable as (? & ? & ? & ? & ? & ?).
    unfold Detector.representable, Detector.fits_u64. cbn.
    repeat split; try lia; done.
Qed.

(** ** Saving *)

Lemma elem_of_parents (path p : list string) :
  p ∈ Detector.parents path ↔ ∃ n, 1 ≤ n < length path ∧ p = take n path.
Proof.
  unfold Detector.parents. rewrite list_elem_of_fmap. split.
  - intros (n & -> & Hn%elem_of_seq). exists n. split; [lia|done].
  - intros (n & Hn & ->). exists n. split; [done|]. apply elem_of_seq. lia.
Qed.

(** C6. For every detector that holds a model, every path and every file
    system, [save_checkpoint] succeeds and the file at the path then holds
    the serialized hyperparameters and parameters (deserializing it gives
    the model back); every directory above the path exists afterwards,
    whether or not it existed before, so the caller need not create any;
    directories and other files that were there are kept. *)
Theorem save_checkpoint_writes d m path fs :
  Detector.model d = Some m →
  ∃ fs',
    Detector.save_checkpoint d path fs = Ok fs'
    ∧ Detector.files fs' !! path = Some (Detector.serialize m)
    ∧ (Detector.representable m →
       Detector.deserialize (Detector.serialize m) = Some m)
    ∧ (∀ n, 1 ≤ n < length path → take n path ∈ Detector.dirs fs')
    ∧ Detector.dirs fs ⊆ Detector.dirs fs'
    ∧ (∀ q, q ≠ path → Detector.files fs' !! q = Detector.files fs !! q).
Proof.
  intros Hm. unfold Detector.save_checkpoint. rewrite Hm.
  eexists. split; [done|]. cbn [Detector.files Detector.dirs].
  split; [by rewrite lookup_insert_eq|].
  split; [apply deserialize_serialize|].
  split; [|split].
  - intros n Hn. apply elem_of_union_r, elem_of_list_to_set, elem_of_parents.
    by exists n.
  - apply union_subseteq_l.
  - intros q Hq. by rewrite lookup_insert_ne.
Qed.

Lemma save_checkpoint_writes_sample :
  ∃ fs',
    Detector.save_checkpoint sample_detector sample_path empty_fs = Ok fs'
    ∧ Detector.files fs' !! sample_path = Some (Detector.serialize sample_model)
    ∧ ["models"%string] ∈ Detector.dirs fs'
    ∧ ["models"%string] ∉ Detector.dirs empty_fs.
Proof.
  destruct (save_checkpoint_writes sample_detector sample_model sample_path
              empty_fs eq_refl)
    as (fs' & Hs & Hf & _ & Hd & _).
  exists fs'. split; [exact Hs|]. split; [exact Hf|]. split.
  - apply (Hd 1). cbn. lia.
  - apply not_elem_of_empty.
Defined.

(** Cell 10 creates [MODELS_DIR] itself when it is absent: whatever the
    file system, [save_checkpoint] is called on one where the directory
    exists, with the path [models/rnn_classifier_<timestamp>.bin]; a file
    system that already has the directory is passed on as it is. *)
Lemma save_cell_makes_models_dir now dd fs :
  ∃ fs1,
    Detector.path_exists MODELS_DIR fs1 = true
    ∧ (Detector.path_exists MODELS_DIR fs = true → fs1 = fs)
    ∧ Detector.files fs1 = Detector.files fs
    ∧ save_cell now dd fs
      = (fs' ← Detector.save_checkpoint dd
                 ["models"; "rnn_classifier_" +:+ now +:+ ".bin"]%string fs1;
         Ok (["models"; "rnn_classifier_" +:+ now +:+ ".bin"]%string, fs')).
Proof.
  unfold save_cell.
  destruct (Detector.path_exists MODELS_DIR fs) eqn:He; cbn [negb].
  - by exists fs.
  - unfold Detector.makedirs. rewrite He.
    exists (Detector.mkFS
              (Detector.dirs fs ∪ list_to_set (Detector.parents MODELS_DIR)
                 ∪ {[MODELS_DIR]}) (Detector.files fs)).
    split; [|split; [congruence|split; reflexivity]].
    unfold Detector.path_exists. cbn [Detector.dirs].
    apply orb_true_iff. left. apply bool_decide_eq_true. set_solver.
Qed.

(** ** The inference cell *)

Lemma accuracy_score_bounds y_true y_pred correct total :
  accuracy_score y_true y_pred = Ok (correct, total) →
  correct ≤ total ∧ total = length y_true.
Proof.
  unfold accuracy_score. destruct (decide _); [|done]. intros [= <- <-].
  split; [|done]. etrans; [apply length_filter|]. rewrite length_zip. lia.
Qed.

Lemma load_checkpoint_Ok `{Detector.Classifier} d path fs d' :
  Detector.load_checkpoint d path fs = Ok d' →
  ∃ m, d' = Detector.mkState (Detector.lr d) (Some m)
       ∧ Detector.compatible m = true.
Proof.
  unfold Detector.load_checkpoint.
  destruct (Detector.files fs !! path) as [bs|]; [|done].
  destruct (Detector.deserialize bs) as [m|]; [|done].
  destruct (Detector.compatible m) eqn:Hc; [|done].
  intros [= <-]. by exists m.
Qed.

(** Cell 11: when the checkpoint loads, the loop predicts every row of
    every chunk once, in order, and the accuracy printed is the number of
    rows whose predicted class is the label of that row over the number of
    rows, a fraction between 0 and 1. When it does not load, the cell
    raises what [load_checkpoint] raises. *)
Theorem inference_cell_accuracy `{Detector.Classifier} path fs chunks :
  match Detector.load_checkpoint (Detector.DGADetector None) path fs with
  | Ok d =>
      ∃ m correct,
        Detector.model d = Some m
        ∧ inference_cell path fs chunks = Ok (correct, length (concat chunks))
        ∧ correct ≤ length (concat chunks)
        ∧ accuracy_score
            ((λ s, Detector.classify m (contract_row 100 s) (contract_length 100 s))
               <$> (concat chunks).*1)
            (concat chunks).*2
          = Ok (correct, length (concat chunks))
  | Raise e => inference_cell path fs chunks = Raise e
  end.
Proof.
  unfold inference_cell.
  destruct (Detector.load_checkpoint (Detector.DGADetector None) path fs)
    as [d|e] eqn:Hl; [|done].
  apply load_checkpoint_Ok in Hl as (m & -> & _). exists m.
  cbn [mbind Res_bind]. rewrite (predict_chunks_spec _ m) by done.
  cbn [mbind Res_bind].
  destruct (accuracy_score
              ((λ s, Detector.classify m (contract_row 100 s) (contract_length 100 s))
                 <$> (concat chunks).*1) (concat chunks).*2)
    as [[correct total]|e] eqn:Ha.
  - apply accuracy_score_bounds in Ha as Hb. destruct Hb as [Hle ->].
    rewrite !length_fmap in *. by exists correct.
  - unfold accuracy_score in Ha. rewrite decide_True in Ha by (by rewrite !length_fmap).
    done.
Qed.


(** * Further properties of the notebook's code *)

(** ** When [preprocess] succeeds *)

Lemma preprocess_Ok_fits gpu records W seq lens :
  (1 ≤ W)%Z →
  preprocess gpu (read_frame records) W = Ok (seq, lens) →
  widest (take 32 records.*1) ≤ Z.to_nat W.
Proof.
  intros HW. rewrite preprocess_read_frame. cbv zeta.
  destruct (decide (W < 0)%Z); [done|].
  destruct (decide (widest (take 32 records.*1) ≤ Z.to_nat W)); [done|].
  destruct (decide (widest (take 32 records.*1) = 1)); [lia|done].
Qed.

(** [preprocess] returns exactly when the width is not negative and the
    first 32 domains fit in it, or the width is 0 and no domain among them
    has more than one character (a one-column matrix broadcasts into the
    empty block); in every other case it raises [ValueError], and it
    raises nothing else. Rows after the 32nd never make it fail. *)
Theorem preprocess_succeeds_iff gpu records W :
  let ds := take 32 records.*1 in
  let fits := (0 ≤ W)%Z
              ∧ ((∀ s, s ∈ ds → String.length s ≤ Z.to_nat W)
                 ∨ (W = 0%Z ∧ ∀ s, s ∈ ds → String.length s ≤ 1)) in
  ((∃ seq lens, preprocess gpu (read_frame records) W = Ok (seq, lens)) ↔ fits)
  ∧ (preprocess gpu (read_frame records) W = Raise ValueError ↔ ¬ fits)
  ∧ (∀ e, preprocess gpu (read_frame records) W = Raise e → e = ValueError).
Proof.
  intros ds fits. rewrite preprocess_read_frame. cbv zeta. fold ds.
  assert (Hw : ∀ n, widest ds ≤ n ↔ ∀ s, s ∈ ds → String.length s ≤ n).
  { intros n. split.
    - intros Hle s Hs. pose proof (widest_ge ds s Hs). lia.
    - apply widest_le. }
  destruct (decide (W < 0)%Z) as [Hneg|Hpos].
  { split; [|split].
    - split; [by intros (? & ? & ?)|]. intros [? _]. lia.
    - split; [|done]. intros _ [? _]. lia.
    - by intros e [= <-]. }
  destruct (decide (widest ds ≤ Z.to_nat W)) as [Hfit|Hover].
  { assert (fits) as Hfits by (split; [lia|left; by apply Hw]).
    split; [|split]; [split; eauto|split; [done|by intros []]|done]. }
  destruct (decide (widest ds = 1)) as [H1|H1].
  { assert (fits) as Hfits.
    { split; [lia|right]. split; [lia|]. apply Hw. lia. }
    split; [|split]; [split; eauto|split; [done|by intros []]|done]. }
  assert (¬ fits) as Hnfits.
  { intros [_ [Hall|[-> Hall]]]; apply Hw in Hall; [done|].
    destruct (decide (widest ds = 0)) as [H0|H0]; [|lia].
    apply Hover. rewrite H0. lia. }
  split; [|split].
  - split; [by intros (? & ? & ?)|done].
  - done.
  - by intros e [= <-].
Qed.

(** ** Widening the pad width *)

Lemma pad_right_widen w1 w2 l :
  length l ≤ w1 → w1 ≤ w2 →
  pad_right w2 l = pad_right w1 l ++ replicate (w2 - w1) 0%Z.
Proof.
  intros H1 H2. unfold pad_right.
  rewrite <- (assoc_L (++)), <- replicate_add. do 2 f_equal. lia.
Qed.

(** A larger pad width only appends zeros: when [preprocess] returns at a
    width [W1 >= 1], it returns at every width [W2 >= W1], with the same
    lengths and with each row followed by [W2 - W1] zeros. *)
Theorem preprocess_widen gpu records W1 W2 seq1 lens1 :
  (1 ≤ W1 ≤ W2)%Z →
  preprocess gpu (read_frame records) W1 = Ok (seq1, lens1) →
  ∃ seq2,
    preprocess gpu (read_frame records) W2 = Ok (seq2, lens1)
    ∧ shape0 (contents seq2) = shape0 (contents seq1)
    ∧ data (contents seq2)
      = (λ row, row ++ replicate (Z.to_nat W2 - Z.to_nat W1) 0%Z)
          <$> data (contents seq1).
Proof.
  intros HW Hp. assert (HW1 : (1 ≤ W1)%Z) by lia.
  pose proof (preprocess_Ok_fits _ _ _ _ _ HW1 Hp) as Hfit.
  revert Hp. rewrite !preprocess_read_frame. cbv zeta.
  rewrite (decide_False (P := (W1 < 0)%Z)) by lia.
  rewrite (decide_False (P := (W2 < 0)%Z)) by lia.
  rewrite (decide_True (P := widest _ ≤ Z.to_nat W1)) by done.
  rewrite (decide_True (P := widest _ ≤ Z.to_nat W2)) by lia.
  intros [= <- <-]. eexists. split; [done|]. cbn [contents shape0 data].
  split; [done|]. rewrite <- list_fmap_compose.
  apply list_fmap_ext. intros i s Hs%list_elem_of_lookup_2. cbn.
  apply pad_right_widen; [|lia].
  rewrite code_points_length. pose proof (widest_ge _ _ Hs). lia.
Qed.

Lemma preprocess_widen_example :
  ∃ seq1 lens1 seq2,
    preprocess false (read_frame [("google"%string, 0%Z)]) 6 = Ok (seq1, lens1)
    ∧ preprocess false (read_frame [("google"%string, 0%Z)]) 8 = Ok (seq2, lens1)
    ∧ data (contents seq1) = [[103; 111; 111; 103; 108; 101]%Z]
    ∧ data (contents seq2) = [[103; 111; 111; 103; 108; 101; 0; 0]%Z].
Proof.
  eexists _, _. 
  assert (Hp : preprocess false (read_frame [("google"%string, 0%Z)]) 6
               = Ok (mkTensor Cuda (mkArray 1 6 [[103; 111; 111; 103; 108; 101]%Z]),
                     mkTensor Cpu [6%Z])) by (by vm_compute).
  assert (HW : (1 ≤ 6 ≤ 8)%Z) by lia.
  destruct (preprocess_widen false [("google"%string, 0%Z)] 6 8 _ _ HW Hp)
    as (seq2 & Hp2 & _ & Hd).
  exists seq2. split; [exact Hp|]. split; [exact Hp2|]. split; [done|exact Hd].
Defined.

(** ** The encoding loses nothing *)

Lemma code_points_inj s s' : code_points s = code_points s' → s = s'.
Proof.
  unfold code_points. revert s'.
  induction s as [|c s IH]; intros [|c' s']; cbn; try done.
  intros [= Hc Hs]. f_equal; [|by apply IH].
  unfold code_point in Hc. apply Nat2Z.inj in Hc.
  rewrite <- (ascii_nat_embedding c), <- (ascii_nat_embedding c'). by rewrite Hc.
Qed.

Lemma take_pad_right n w l : length l = n → take n (pad_right w l) = l.
Proof. intros <-. unfold pad_right. apply take_app_length. Qed.

(** In successful runs at the same width [W >= 1], on the same frame or on
    two different ones, two rows that are equal and have equal recorded
    lengths encode the same domain: the domain can be read back from its
    row and its length. *)
Theorem preprocess_injective gpu1 gpu2 records1 records2 W
    seq1 lens1 seq2 lens2 i j s s' :
  (1 ≤ W)%Z → i < 32 → j < 32 →
  records1.*1 !! i = Some s → records2.*1 !! j = Some s' →
  preprocess gpu1 (read_frame records1) W = Ok (seq1, lens1) →
  preprocess gpu2 (read_frame records2) W = Ok (seq2, lens2) →
  data (contents seq1) !! i = data (contents seq2) !! j →
  contents lens1 !! i = contents lens2 !! j →
  s = s'.
Proof.
  intros HW Hi Hj Hs Hs' Hp1 Hp2.
  destruct (preprocess_row _ _ _ _ _ _ _ Hi Hs Hp1) as [-> ->].
  destruct (preprocess_row _ _ _ _ _ _ _ Hj Hs' Hp2) as [-> ->].
  intros [= Hrow] [= Hlen%Nat2Z.inj].
  pose proof (preprocess_Ok_fits _ _ _ _ _ HW Hp1) as Hfit1.
  pose proof (preprocess_Ok_fits _ _ _ _ _ HW Hp2) as Hfit2.
  assert (Hin1 : s ∈ take 32 records1.*1).
  { eapply list_elem_of_lookup_2. by rewrite lookup_take_lt. }
  assert (Hin2 : s' ∈ take 32 records2.*1).
  { eapply list_elem_of_lookup_2. by rewrite lookup_take_lt. }
  apply widest_ge in Hin1, Hin2.
  rewrite !take_ge in Hrow
    by (rewrite pad_right_length; [done|rewrite code_points_length; lia]).
  apply code_points_inj.
  rewrite <- (take_pad_right (String.length s) (Z.to_nat W) (code_points s))
    by apply code_points_length.
  rewrite Hrow, Hlen. apply take_pad_right, code_points_length.
Qed.

Lemma preprocess_injective_example :
  ∃ seq lens,
    preprocess false
      (read_frame [("google"%string, 0%Z); ("xkqjzwpqor"%string, 1%Z)]) 20
    = Ok (seq, lens)
    ∧ (data (contents seq) !! 0 = data (contents seq) !! 1 →
       contents lens !! 0 = contents lens !! 1 →
       "google"%string = "xkqjzwpqor"%string).
Proof.
  destruct (preprocess false
              (read_frame [("google"%string, 0%Z); ("xkqjzwpqor"%string, 1%Z)]) 20)
    as [[seq lens]|e] eqn:Hp; [|by vm_compute in Hp].
  exists seq, lens. split; [reflexivity|].
  assert (HW : (1 ≤ 20)%Z) by lia.
  apply (preprocess_injective false false
           [("google"%string, 0%Z); ("xkqjzwpqor"%string, 1%Z)]
           [("google"%string, 0%Z); ("xkqjzwpqor"%string, 1%Z)]
           20 seq lens seq lens 0 1); (done || lia).
Defined.

(** ** Codes stay in the vocabulary *)

Lemma code_points_ascii s :
  is_ascii s → Forall (λ c, 0 ≤ c < CHAR_VOCAB)%Z (code_points s).
Proof.
  unfold is_ascii, code_points, CHAR_VOCAB. intros Hs.
  apply Forall_fmap. eapply Forall_impl; [exact Hs|].
  intros c Hc. cbn in *. unfold compose, code_point. lia.
Qed.

(** Whenever [preprocess] returns at a width [W >= 1] on a frame whose
    first 32 domains are ASCII, every entry of the sequence tensor is an
    index below [CHAR_VOCAB] (128, cell 6), every row has [W] entries, and
    every recorded length lies between 0 and [W]. *)
Theorem preprocess_within_vocabulary gpu records W seq lens :
  (1 ≤ W)%Z →
  (∀ s, s ∈ take 32 records.*1 → is_ascii s) →
  preprocess gpu (read_frame records) W = Ok (seq, lens) →
  Forall (Forall (λ c, 0 ≤ c < CHAR_VOCAB)%Z) (data (contents seq))
  ∧ Forall (λ row, length row = Z.to_nat W) (data (contents seq))
  ∧ Forall (λ n, 0 ≤ n ≤ W)%Z (contents lens).
Proof.
  intros HW Hascii Hp. pose proof (preprocess_Ok_fits _ _ _ _ _ HW Hp) as Hfit.
  revert Hp. rewrite preprocess_read_frame. cbv zeta.
  rewrite (decide_False (P := (W < 0)%Z)) by lia.
  rewrite (decide_True (P := widest _ ≤ Z.to_nat W)) by done.
  intros [= <- <-]. cbn [contents on_device data].
  split; [|split]; apply Forall_fmap, Forall_forall; intros s Hs; cbn.
  - unfold pad_right. apply Forall_app. split.
    + by apply code_points_ascii, Hascii.
    + apply Forall_replicate. unfold CHAR_VOCAB. lia.
  - apply pad_right_length. rewrite code_points_length.
    pose proof (widest_ge _ _ Hs). lia.
  - pose proof (widest_ge _ _ Hs). lia.
Qed.

Lemma preprocess_within_vocabulary_example :
  ∃ seq lens,
    preprocess false (read_frame [("google"%string, 0%Z)]) 20 = Ok (seq, lens)
    ∧ Forall (Forall (λ c, 0 ≤ c < CHAR_VOCAB)%Z) (data (contents seq))
    ∧ Forall (λ n, 0 ≤ n ≤ 20)%Z (contents lens).
Proof.
  destruct (preprocess false (read_frame [("google"%string, 0%Z)]) 20)
    as [[seq lens]|e] eqn:Hp; [|by vm_compute in Hp].
  exists seq, lens. split; [reflexivity|].
  assert (HW : (1 ≤ 20)%Z) by lia.
  destruct (preprocess_within_vocabulary false [("google"%string, 0%Z)] 20
              seq lens HW) as (Hv & _ & Hl); [|exact Hp|by split].
  intros s Hs. cbn in Hs. apply list_elem_of_singleton in Hs as ->.
  unfold is_ascii. cbn. repeat constructor; cbn; lia.
Defined.

(** ** The sample of cell 14 *)

(** The slice [gdf[0:32]] at the call of cell 14 repeats the one inside
    [preprocess]: the sample is [preprocess(gdf, 100)] for every frame.
    On a frame read from the input file the sample is built exactly when
    each of the first 32 domains has at most 100 characters, and a longer
    one among them makes the cell raise [ValueError]; the sample then has
    [min (number of rows) 32] rows of width 100 and as many lengths. *)
Theorem sample_cell_outcome :
  (∀ gpu gdf, sample_cell gpu gdf = preprocess gpu gdf 100)
  ∧ (∀ gpu records,
       ((∃ sample, sample_cell gpu (read_frame records) = Ok sample)
        ↔ ∀ s, s ∈ take 32 records.*1 → String.length s ≤ 100)
       ∧ ((∃ s, s ∈ take 32 records.*1 ∧ 100 < String.length s) →
          sample_cell gpu (read_frame records) = Raise ValueError)
       ∧ (∀ seq lens,
            sample_cell gpu (read_frame records) = Ok (seq, lens) →
            shape0 (contents seq) = length records `min` 32
            ∧ shape1 (contents seq) = 100
            ∧ length (data (contents seq)) = length records `min` 32
            ∧ length (contents lens) = length records `min` 32)).
Proof.
  assert (Hsame : ∀ gpu gdf, sample_cell gpu gdf = preprocess gpu gdf 100).
  { intros gpu gdf. unfold sample_cell, preprocess. by rewrite iloc_slice_idemp. }
  split; [exact Hsame|]. intros gpu records. rewrite Hsame.
  rewrite preprocess_read_frame. cbv zeta.
  rewrite (decide_False (P := (100 < 0)%Z)) by lia.
  change (Z.to_nat 100) with 100.
  assert (Hn : length (take 32 records.*1) = length records `min` 32).
  { rewrite length_take, length_fmap. lia. }
  destruct (decide (widest (take 32 records.*1) ≤ 100)) as [Hfit|Hover].
  - split; [|split].
    + split; [|by eauto]. intros _ s Hs. pose proof (widest_ge _ _ Hs). lia.
    + intros Hlong%widest_over. lia.
    + intros seq lens [= <- <-]. cbn [contents on_device shape0 shape1 data].
      by rewrite !length_fmap.
  - rewrite decide_False by lia. split; [|split].
    + split; [by intros [? ?]|]. intros Hall. by apply widest_le in Hall.
    + done.
    + done.
Qed.

Lemma sample_cell_outcome_example :
  (∃ sample, sample_cell false (read_frame [("google"%string, 0%Z)]) = Ok sample)
  ∧ sample_cell false
      (read_frame [(string_of_list_ascii (replicate 101 "a"%char), 1%Z)])
    = Raise ValueError.
Proof.
  destruct sample_cell_outcome as [_ Hcell]. split.
  - destruct (Hcell false [("google"%string, 0%Z)]) as ([_ Hok] & _).
    apply Hok. intros s Hs. cbn in Hs.
    apply list_elem_of_singleton in Hs as ->. cbn. lia.
  - destruct (Hcell false [(string_of_list_ascii (replicate 101 "a"%char), 1%Z)])
      as (_ & Hraise & _).
    apply Hraise. eexists. split; [cbn; by apply list_elem_of_singleton|].
    vm_compute. lia.
Defined.

(** ** Checkpoint file names *)

Lemma digit_inj a b : digit a = digit b → (a mod 10 = b mod 10)%Z.
Proof.
  unfold digit. intros H. apply (f_equal nat_of_ascii) in H.
  pose proof (Z.mod_pos_bound a 10 ltac:(lia)).
  pose proof (Z.mod_pos_bound b 10 ltac:(lia)).
  rewrite !nat_ascii_embedding in H by lia. lia.
Qed.

Lemma two_digits_inj a b :
  (0 ≤ a < 100)%Z → (0 ≤ b < 100)%Z → two_digits a = two_digits b → a = b.
Proof.
  intros Ha Hb. unfold two_digits. intros [= H1%digit_inj H0%digit_inj].
  rewrite (Z.mod_small (a / 10)), (Z.mod_small (b / 10)) in H1
    by (split; [apply Z.div_pos|apply Z.div_lt_upper_bound]; lia).
  rewrite (Z.div_mod a 10), (Z.div_mod b 10) by lia. lia.
Qed.

Lemma four_digits_inj a b :
  (0 ≤ a < 10000)%Z → (0 ≤ b < 10000)%Z → four_digits a = four_digits b → a = b.
Proof.
  intros Ha Hb. unfold four_digits.
  intros [= H3%digit_inj H2%digit_inj H1%digit_inj H0%digit_inj].
  revert H3 H2 H1 H0.
  Z.to_euclidean_division_equations. lia.
Qed.

Lemma save_cell_path now dd fs p fs' :
  save_cell now dd fs = Ok (p, fs') →
  p = Detector.join MODELS_DIR ("rnn_classifier_" +:+ now +:+ ".bin")%string.
Proof.
  unfold save_cell.
  destruct (if negb _ then _ else _) as [fs1|]; cbn [mbind Res_bind]; [|done].
  destruct (Detector.save_checkpoint _ _ _); cbn [mbind Res_bind]; [|done].
  by intros [= <- _].
Qed.

(** The checkpoint of cell 10 is written to [model_filepath now]. Two
    valid times give the same path exactly when they agree up to the
    second: checkpoints saved in different seconds never share a file,
    and the microseconds do not enter the name, so two saves within the
    same second go to the same file. *)
Theorem model_filepath_collides_iff :
  (∀ now dd fs p fs',
     save_cell (strftime now) dd fs = Ok (p, fs') → p = model_filepath now)
  ∧ (∀ t1 t2,
       valid_datetime t1 → valid_datetime t2 →
       (model_filepath t1 = model_filepath t2
        ↔ year t1 = year t2 ∧ month t1 = month t2 ∧ day t1 = day t2
          ∧ hour t1 = hour t2 ∧ minute t1 = minute t2 ∧ second t1 = second t2)).
Proof.
  split; [intros now dd fs p fs'; apply save_cell_path|].
  intros t1 t2 (Hy1 & Hm1 & Hd1 & Hh1 & Hmi1 & Hs1 & _)
    (Hy2 & Hm2 & Hd2 & Hh2 & Hmi2 & Hs2 & _).
  unfold model_filepath, Detector.join, strftime. split.
  - unfold four_digits, two_digits. cbn [String.append app].
    intros [= Y3 Y2 Y1 Y0 Mo1 Mo0 Da1 Da0 Ho1 Ho0 Mi1 Mi0 Se1 Se0].
    repeat split.
    + apply four_digits_inj; [lia|lia|]. unfold four_digits. congruence.
    + apply two_digits_inj; [lia|lia|]. unfold two_digits. congruence.
    + apply two_digits_inj; [lia|lia|]. unfold two_digits. congruence.
    + apply two_digits_inj; [lia|lia|]. unfold two_digits. congruence.
    + apply two_digits_inj; [lia|lia|]. unfold two_digits. congruence.
    + apply two_digits_inj; [lia|lia|]. unfold two_digits. congruence.
  - by intros (-> & -> & -> & -> & -> & ->).
Qed.

(** The time of the run recorded in the notebook, whose log shows the path
    [models/rnn_classifier_2023-05-26_17_34_54.bin]. *)
Lemma model_filepath_of_logged_run :
  model_filepath (mkDatetime 2023 5 26 17 34 54 461000)
  = ["models"; "rnn_classifier_2023-05-26_17_34_54.bin"]%string
  ∧ model_filepath (mkDatetime 2023 5 26 17 34 54 461000)
    = model_filepath (mkDatetime 2023 5 26 17 34 54 999999)
  ∧ model_filepath (mkDatetime 2023 5 26 17 34 54 461000)
    ≠ model_filepath (mkDatetime 2023 5 26 17 34 55 0).
Proof.
  destruct model_filepath_collides_iff as [_ Hiff].
  assert (Hv : ∀ s us, (0 ≤ s < 60)%Z → (0 ≤ us < 1000000)%Z →
                       valid_datetime (mkDatetime 2023 5 26 17 34 s us)).
  { intros s us Hs Hus. unfold valid_datetime. cbn. lia. }
  split; [reflexivity|]. split.
  - apply (Hiff (mkDatetime 2023 5 26 17 34 54 461000)
             (mkDatetime 2023 5 26 17 34 54 999999)); [apply Hv; lia..|].
    by cbn.
  - intros Heq.
    apply (Hiff (mkDatetime 2023 5 26 17 34 54 461000)
             (mkDatetime 2023 5 26 17 34 55 0)) in Heq; [|apply Hv; lia..].
    cbn in Heq. lia.
Defined.

(** ** The evaluation loop of cell 11 *)






Lemma predict_chunks_chunk_loop `{Detector.Classifier} d chunks :
  predict_chunks d chunks = chunk_loop Detector.predict d chunks.
Proof.
  revert d. induction chunks as [|chunk chunks IH]; intros d; [done|].
  cbn [predict_chunks chunk_loop].
  destruct (Detector.predict d chunk.*1) as [[preds d1]|]; [|done].
  cbn [mbind Res_bind]. by rewrite IH.
Qed.

